(** * Document-to-chunk workflow of the loaders/splitters notebook

    Shallow embedding of [process_documents_workflow] (the combined
    loader/splitter cell of the notebook) together with the data it
    manipulates: LangChain [Document] values carrying a text and a
    metadata dictionary.  The splitter handed to the workflow is an
    object of a third-party library; the workflow only calls its
    [split_text] method, so the embedding takes that method as a
    parameter which either returns the list of chunk texts or raises. *)

From stdpp Require Import base option list gmap strings fin_maps.


(** ** Python values stored in metadata dictionaries *)

#[warnings="-register-all"]
Inductive value : Type :=
  | VNone
  | VBool (b : bool)
  | VInt (z : Z)
  | VStr (s : string)
  | VList (l : list value).

(** [Document(page_content=..., metadata=...)] *)
Record Document : Type := mkDocument {
  page_content : string;
  metadata : gmap string value
}.

(** ** Results of calls that may raise *)

Inductive result (E A : Type) : Type :=
  | Ok (a : A)
  | Raise (e : E).
Arguments Ok {E A} a.
Arguments Raise {E A} e.

#[global] Instance result_ret {E} : MRet (result E) := λ A a, Ok a.

#[global] Instance result_bind {E} : MBind (result E) := λ A B k c,
  match c with
  | Ok a => k a
  | Raise e => Raise e
  end.

(** ** The workflow *)

(** [enumerate(chunks)]: the items paired with their positions, from 0. *)
Fixpoint enumerate_from {A} (i : nat) (l : list A) : list (nat * A) :=
  match l with
  | [] => []
  | x :: r => (i, x) :: enumerate_from (S i) r
  end.

Definition enumerate {A} (l : list A) : list (nat * A) := enumerate_from 0 l.

(** The dictionary display
    [{**doc.metadata, 'chunk_index': i, 'total_chunks': len(chunks)}]:
    the parent's entries first, then the two derived keys, each later
    entry replacing an earlier one with the same key. *)
Definition chunk_metadata (doc : Document) (chunks : list string) (i : nat)
    : gmap string value :=
  <["total_chunks" := VInt (Z.of_nat (length chunks))]>
    (<["chunk_index" := VInt (Z.of_nat i)]> (metadata doc)).

Definition chunk_doc (doc : Document) (chunks : list string) (i : nat) (chunk : string)
    : Document :=
  {| page_content := chunk; metadata := chunk_metadata doc chunks i |}.

(** [for i, chunk in enumerate(chunks): ... all_chunks.append(chunk_doc)] *)
Definition inner_loop (doc : Document) (chunks : list string) (all_chunks : list Document)
    : list Document :=
  foldl (λ acc ic, acc ++ [chunk_doc doc chunks ic.1 ic.2]) all_chunks (enumerate chunks).

Section workflow.
Context {E : Type}.
(** [splitter.split_text] *)
Variable split_text : string → result E (list string).

(** [for doc in documents: chunks = splitter.split_text(doc.page_content); ...]
    threaded through the list being accumulated; an exception raised by
    the splitter leaves the function. *)
Fixpoint outer_loop (documents : list Document) (all_chunks : list Document)
    : result E (list Document) :=
  match documents with
  | [] => Ok all_chunks
  | doc :: rest =>
      chunks ← split_text (page_content doc);
      outer_loop rest (inner_loop doc chunks all_chunks)
  end.

Definition process_documents_workflow (documents : list Document)
    : result E (list Document) :=
  outer_loop documents [].
End workflow.

(** The chunk documents appended for one parent document. *)
Definition derived (doc : Document) (chunks : list string) : list Document :=
  inner_loop doc chunks [].

(** Dictionary reads used to state the results: [cd.metadata.get(key)]. *)
Definition chunk_index (cd : Document) : option value := metadata cd !! "chunk_index".
Definition total_chunks (cd : Document) : option value := metadata cd !! "total_chunks".

(** The splitter returned [chunks] for each document, position by position. *)
Definition splits {E} (split_text : string → result E (list string))
    (documents : list Document) (per_doc : list (list string)) : Prop :=
  Forall2 (λ doc chunks, split_text (page_content doc) = Ok chunks) documents per_doc.

(** A reading [locate] of the surfaced error, made with the batch at hand,
    points at a document of the batch on which the splitter raised that
    error. *)
Definition locates {E} (locate : E → list Document → nat)
    (split_text : string → result E (list string)) (documents : list Document) : Prop :=
  ∀ e, process_documents_workflow split_text documents = Raise e →
       ∃ doc, documents !! locate e documents = Some doc
              ∧ split_text (page_content doc) = Raise e.

(** ** Sample data

    A whitespace splitter that raises on one particular text, and a few
    documents shaped like the rows the CSV loader returns. *)
Definition raise_on (bad text : string) : result string (list string) :=
  if decide (text = bad) then Raise "boom" else Ok (String.words text).

Definition sample_split : string → result string (list string) := raise_on "bad".

Definition doc_row0 : Document :=
  {| page_content := "alpha beta";
     metadata := {[ "source" := VStr "employees.csv"; "row" := VInt 0;
                    "chunk_index" := VInt 99 ]} |}.
Definition doc_blank : Document :=
  {| page_content := ""; metadata := {[ "source" := VStr "employees.csv"; "row" := VInt 1 ]} |}.
Definition doc_row2 : Document :=
  {| page_content := "gamma"; metadata := {[ "total_chunks" := VStr "many" ]} |}.
Definition doc_bad : Document :=
  {| page_content := "bad"; metadata := ∅ |}.

Definition sample_documents : list Document := [doc_row0; doc_blank; doc_row2].
Definition sample_per_doc : list (list string) := [["alpha"; "beta"]; []; ["gamma"]].

(** ** The structural (header-bounded) splitter

    The notebook builds a [MarkdownHeaderTextSplitter] with
    [strip_headers=False] and calls its [split_text]; the class belongs to
    the third-party library and its code is not among the sources.  The
    definitions of this part follow the description of the structural
    splitter in the specification. *)

Definition newline : Ascii.ascii := Ascii.ascii_of_nat 10.

(** The lines of a text, cut at each newline (none for the empty text). *)
Fixpoint lines_go (cur : option string) (text : string) : list string :=
  match text with
  | "" => option_list (String.rev <$> cur)
  | String a text =>
      if decide (a = newline)
      then String.rev (default "" cur) :: lines_go None text
      else lines_go (Some (String a (default "" cur))) text
  end.

Definition lines (text : string) : list string := lines_go None text.

Fixpoint join_lines (ls : list string) : string :=
  match ls with
  | [] => ""
  | [l] => l
  | l :: rest => l +:+ String newline (join_lines rest)
  end.

(** [strip_prefix p s] is what follows [p] in [s] when [s] starts with [p]. *)
Fixpoint strip_prefix (p s : string) : option string :=
  match p, s with
  | "", _ => Some s
  | String a p, String b s => if decide (a = b) then strip_prefix p s else None
  | String _ _, "" => None
  end.

Fixpoint lstrip (s : string) : string :=
  match s with
  | "" => ""
  | String a rest => if Ascii.is_space a then lstrip rest else s
  end.

Definition strip (s : string) : string :=
  String.rev (lstrip (String.rev (lstrip s))).

Fixpoint contains (needle hay : string) : bool :=
  match strip_prefix needle hay, hay with
  | Some _, _ => true
  | None, "" => false
  | None, String _ hay => contains needle hay
  end.

(** A chunk of the structural splitter: its text and its heading path. *)
Record HeaderChunk : Type := mkHeaderChunk {
  header_content : string;
  header_metadata : gmap string string
}.

(** Modelled from the spec: the marker search of the structural splitter,
    whose code is in the third-party library.  The markers are an ordered
    list of (marker-prefix, label) pairs, the position in the list being the
    hierarchy level.  A line matches a marker when it starts with the
    marker's prefix; of several such markers the one with the longest prefix
    gives the level.  The result is the level, the prefix and the label. *)
Fixpoint find_marker (level : nat) (markers : list (string * string)) (line : string)
    : option (nat * string * string) :=
  match markers with
  | [] => None
  | (prefix, label) :: rest =>
      let deeper := find_marker (S level) rest line in
      match strip_prefix prefix line, deeper with
      | Some _, Some (_, prefix', _) =>
          if String.length prefix <? String.length prefix'
          then deeper else Some (level, prefix, label)
      | Some _, None => Some (level, prefix, label)
      | None, _ => deeper
      end
  end.

(** Modelled from the spec: a header line gives its level, its label and
    the heading text, which is the line after the marker prefix without the
    blanks around it. *)
Definition match_marker (markers : list (string * string)) (line : string)
    : option (nat * string * string) :=
  '(level, prefix, label) ← find_marker 0 markers line;
  heading ← strip_prefix prefix line;
  Some (level, label, strip heading).

(** Modelled from the spec: the running heading path is updated at a header
    of some level by overwriting the entry for that level and clearing any
    deeper levels. *)
Definition update_path (markers : list (string * string)) (level : nat)
    (label heading : string) (path : gmap string string) : gmap string string :=
  <[label := heading]> (foldr delete path (drop (S level) markers).*2).

Definition path_step (markers : list (string * string))
    (path : gmap string string) (line : string) : gmap string string :=
  match match_marker markers line with
  | Some (level, label, heading) => update_path markers level label heading path
  | None => path
  end.

(** The heading path after the lines [ls], from the empty path. *)
Definition heading_path (markers : list (string * string)) (ls : list string)
    : gmap string string :=
  foldl (path_step markers) ∅ ls.

Record scan_state : Type := mkScan {
  scan_path : gmap string string;
  scan_current : list string;
  scan_emitted : list HeaderChunk
}.

(** Emission of the chunk being built, if it has any line: its metadata is
    the heading path of that moment. *)
Definition flush (st : scan_state) : list HeaderChunk :=
  match scan_current st with
  | [] => []
  | ls => [{| header_content := join_lines ls; header_metadata := scan_path st |}]
  end.

(** Modelled from the spec: the scan of the structural splitter, top to
    bottom.  A header line ends the chunk being built and starts a new one
    (with the header line kept, as [strip_headers=False] asks); any other
    line joins the chunk being built.  What precedes the first header is a
    chunk with the empty heading path. *)
Definition scan_step (markers : list (string * string))
    (st : scan_state) (line : string) : scan_state :=
  match match_marker markers line with
  | Some _ =>
      {| scan_path := path_step markers (scan_path st) line;
         scan_current := [line];
         scan_emitted := scan_emitted st ++ flush st |}
  | None =>
      {| scan_path := path_step markers (scan_path st) line;
         scan_current := scan_current st ++ [line];
         scan_emitted := scan_emitted st |}
  end.

Definition scan_init : scan_state :=
  {| scan_path := ∅; scan_current := []; scan_emitted := [] |}.

Definition header_split_lines (markers : list (string * string)) (ls : list string)
    : list HeaderChunk :=
  let st := foldl (scan_step markers) scan_init ls in
  scan_emitted st ++ flush st.

(** Modelled from the spec: [split_text] of the structural splitter. *)
Definition header_split_text (markers : list (string * string)) (text : string)
    : list HeaderChunk :=
  header_split_lines markers (lines text).

(** The chunks that go with a cutting [segs] of the lines into consecutive
    segments: the chunk of segment [i] has the lines of that segment as its
    content, and as its metadata the heading path after all the lines up to
    the end of that segment, which are the lines read when it is emitted. *)
Definition segment_chunks (markers : list (string * string))
    (segs : list (list string)) : list HeaderChunk :=
  imap (λ i seg, {| header_content := join_lines seg;
                    header_metadata :=
                      heading_path markers (concat (take (S i) segs)) |}) segs.

(** [headers_to_split_on] and [long_text] of the notebook. *)
Definition headers_to_split_on : list (string * string) :=
  [("#", "Header 1"); ("##", "Header 2"); ("###", "Header 3")].

Definition long_text : string :=
  join_lines
    [ "# Introduction to Artificial Intelligence";
      "";
      "Artificial Intelligence (AI) is a rapidly evolving field that aims to create machines capable of intelligent behavior.";
      "";
      "## History of AI";
      "";
      "The field of AI was founded in 1956 at a conference at Dartmouth College. Early pioneers included Alan Turing, John McCarthy, and Marvin Minsky.";
      "";
      "### Early Developments";
      "- 1950: Alan Turing publishes Computing Machinery and Intelligence";
      "- 1956: The term artificial intelligence is coined";
      "- 1960s: First AI programs developed";
      "";
      "## Applications of AI";
      "";
      "AI has numerous applications across various industries:";
      "";
      "1. Healthcare: Diagnostic imaging, drug discovery";
      "2. Transportation: Autonomous vehicles, traffic optimization";
      "3. Finance: Fraud detection, algorithmic trading";
      "4. Education: Personalized learning, automated grading" ].

(** The scenario of the specification. *)
Definition scenario_markers : list (string * string) :=
  [("#", "Header 1"); ("##", "Header 2")].

Definition scenario_text : string :=
  "# A" +:+ String newline ("text1" +:+ String newline ("## B" +:+ String newline "text2")).

(** ** The JSON loader's [metadata_func]

    The lambda handed to [JSONLoader]: the loader's own metadata, then the
    four fields read from the record with [record.get]. *)

(** [record.get(key)]: the entry, or [None] when the key is missing. *)
Definition dict_get (record : gmap string value) (key : string) : value :=
  default VNone (record !! key).

Definition metadata_func (record metadata : gmap string value) : gmap string value :=
  <["published_date" := dict_get record "published_date"]>
    (<["tags" := dict_get record "tags"]>
      (<["author" := dict_get record "author"]>
        (<["title" := dict_get record "title"]> metadata))).

(** ** [run_batch] of the assistant notebook

    [chain.invoke] belongs to the third-party library and
    [format_product_info] formats a float and dumps JSON; both are taken as
    operations that return or raise an [Exception], of which [str] gives
    the text.  The state threaded through the loop is the list
    [all_infos] and what has been printed. *)
Section run_batch.
Context {E Info : Type}.
Variable chain_invoke : string → result E Info.
Variable format_product_info : Info → result E string.
Variable str : E → string.

(** The body of the [try]: [chain.invoke] then [format_product_info]. *)
Definition try_product (p : string) : result E string :=
  info ← chain_invoke p; format_product_info info.

(** [f"Error processing '{p}': {e}"] *)
Definition error_processing (p : string) (e : E) : string :=
  "Error processing '" +:+ p +:+ "': " +:+ str e.

Definition run_batch_step (st : list string * list string) (p : string)
    : list string * list string :=
  match try_product p with
  | Ok formatted => (st.1 ++ [formatted], st.2)
  | Raise e => (st.1, st.2 ++ [error_processing p e])
  end.

(** The returned [all_infos], paired with the printed lines. *)
Definition run_batch (products : list string) : list string * list string :=
  foldl run_batch_step ([], []) products.

(** What one product contributes to [all_infos], and to the output. *)
Definition formatted_of (p : string) : option string :=
  match try_product p with
  | Ok formatted => Some formatted
  | Raise _ => None
  end.

Definition printed_of (p : string) : option string :=
  match try_product p with
  | Ok _ => None
  | Raise e => Some (error_processing p e)
  end.
End run_batch.

(** ** [cleanup_files]

    The file system is reached through [os.path.exists], [os.remove] and
    [shutil.rmtree]; they are operations on a state of the file system, the
    two removals giving the state they leave and the exception they raised,
    if any.  The result of [cleanup_files] is the state it leaves and what
    it printed, one entry for each call of [print]. *)
Section cleanup_files.
Context {FS E : Type}.
Variable path_exists : FS → string → bool.
Variable os_remove : FS → string → FS * option E.
Variable shutil_rmtree : FS → string → FS * option E.
Variable str : E → string.

Definition files_to_remove : list string := ["employees.csv"; "articles.json"].
Definition dirs_to_remove : list string := ["sample_docs"].

Definition cleanup_header : string := "🧹 Cleaning up temporary files...".
Definition cleanup_footer : string := String newline "Cleanup completed!".

(** [f"Error removing {file}: {e}"] *)
Definition error_removing (p : string) (e : E) : string :=
  "Error removing " +:+ p +:+ ": " +:+ str e.

(** One round of either loop:
    [try: if os.path.exists(p): remove(p); print(removed) except Exception as e: print(error)] *)
Definition remove_step (remove : FS → string → FS * option E) (removed : string → string)
    (st : FS * list string) (p : string) : FS * list string :=
  if path_exists st.1 p then
    match remove st.1 p with
    | (fs, None) => (fs, st.2 ++ [removed p])
    | (fs, Some e) => (fs, st.2 ++ [error_removing p e])
    end
  else st.

Definition cleanup_files (fs : FS) : FS * list string :=
  let st0 := (fs, [cleanup_header]) in
  let st1 := foldl (remove_step os_remove (λ file, "Removed " +:+ file)) st0 files_to_remove in
  let st2 := foldl (remove_step shutil_rmtree (λ dir, "Removed directory " +:+ dir))
                   st1 dirs_to_remove in
  (st2.1, st2.2 ++ [cleanup_footer]).
End cleanup_files.

(** [q] is the path [d] or a path below the directory [d]. *)
Definition under (d q : string) : Prop :=
  q = d ∨ is_Some (strip_prefix (d +:+ "/") q).

(** A small file system for trying [cleanup_files]: the existing paths,
    each a regular file ([false]) or a directory ([true]). *)
Inductive os_error : Type :=
  | IsADirectoryError
  | NotADirectoryError
  | FileNotFoundError.

Definition os_error_str (e : os_error) : string :=
  match e with
  | IsADirectoryError => "Is a directory"
  | NotADirectoryError => "Not a directory"
  | FileNotFoundError => "No such file or directory"
  end.

Definition flat_exists (fs : gmap string bool) (p : string) : bool :=
  bool_decide (is_Some (fs !! p)).

Definition flat_remove (fs : gmap string bool) (p : string)
    : gmap string bool * option os_error :=
  match fs !! p with
  | Some false => (delete p fs, None)
  | Some true => (fs, Some IsADirectoryError)
  | None => (fs, Some FileNotFoundError)
  end.

Definition not_under (d q : string) : bool :=
  bool_decide (q ≠ d) && bool_decide (strip_prefix (d +:+ "/") q = None).

Definition flat_rmtree (fs : gmap string bool) (d : string)
    : gmap string bool * option os_error :=
  match fs !! d with
  | Some true => (filter (λ kv, not_under d kv.1 = true) fs, None)
  | Some false => (fs, Some NotADirectoryError)
  | None => (fs, Some FileNotFoundError)
  end.

Definition demo_fs : gmap string bool :=
  {[ "employees.csv" := false; "notes.txt" := false;
     "sample_docs" := true; "sample_docs/nlp_basics.txt" := false ]}.

(** ** The environment cell of the assistant notebook

    [os.environ[key] = os.getenv(key)] for three keys in turn.  [os.getenv]
    gives [None] for a variable that is not set, and assigning a value that
    is not a string to [os.environ] raises [TypeError] and assigns nothing.
    The result of the cell is the environment it leaves, together with the
    exception that ended it, if any: after a [TypeError] the environment is
    as the assignments made before it have left it. *)
Inductive env_error : Type := TypeError.

Definition getenv (env : gmap string string) (key : string) : option string :=
  env !! key.

Definition environ_setitem (env : gmap string string) (key : string) (v : option string)
    : result env_error (gmap string string) :=
  match v with
  | Some s => Ok (<[key := s]> env)
  | None => Raise TypeError
  end.

(** The assignments for [keys], in turn, stopping at the first that raises. *)
Fixpoint export_each (keys : list string) (env : gmap string string)
    : gmap string string * option env_error :=
  match keys with
  | [] => (env, None)
  | key :: keys =>
      match environ_setitem env key (getenv env key) with
      | Ok env' => export_each keys env'
      | Raise e => (env, Some e)
      end
  end.

Definition export_keys (env : gmap string string)
    : gmap string string * option env_error :=
  export_each ["GROQ_API_KEY"; "LANGCHAIN_API_KEY"; "LANGCHAIN_PROJECT"] env.

(** ** More sample data *)

(** A record like an element of [articles], without its author, and the
    metadata the JSON loader passes along with it. *)
Definition sample_record : gmap string value :=
  {[ "title" := VStr "Introduction to Machine Learning";
     "content" := VStr "Machine learning is a subset of artificial intelligence";
     "tags" := VList [VStr "AI"; VStr "ML"; VStr "Technology"];
     "published_date" := VStr "2024-01-15" ]}.

Definition sample_loader_metadata : gmap string value :=
  {[ "source" := VStr "articles.json"; "seq_num" := VInt 1; "title" := VStr "stale" ]}.

Definition doc_article : Document :=
  {| page_content := "Machine learning is a subset of artificial intelligence";
     metadata := metadata_func sample_record sample_loader_metadata |}.

(** A chain that fails on one product, and a formatter. *)
Definition sample_invoke (p : string) : result string (string * Z) :=
  if decide (p = "Kindle Paperwhite") then Raise "rate limit" else Ok (p, 399%Z).

Definition sample_format (info : string * Z) : result string string :=
  Ok ("product_name: " +:+ info.1).

Definition sample_products : list string :=
  ["Sony WH-1000XM5"; "Kindle Paperwhite"; "Nintendo Switch OLED"].

(** * Properties of the workflow *)

(** ** The loops, unfolded *)

Lemma foldl_enumerate_from {A B} (f : nat → A → B) (l : list A) (i : nat) (acc : list B) :
  foldl (λ acc ic, acc ++ [f ic.1 ic.2]) acc (enumerate_from i l)
  = acc ++ imap (λ j, f (i + j)) l.
Proof.
  revert i acc. induction l as [|x l IH]; intros i acc; simpl.
  - by rewrite app_nil_r.
  - rewrite IH, <-app_assoc. simpl. rewrite Nat.add_0_r. do 2 f_equal.
    apply imap_ext. intros j y _. simpl. f_equal. lia.
Qed.

Lemma inner_loop_app doc chunks all_chunks :
  inner_loop doc chunks all_chunks = all_chunks ++ derived doc chunks.
Proof.
  unfold derived, inner_loop, enumerate. by rewrite !foldl_enumerate_from.
Qed.

Lemma derived_imap doc chunks :
  derived doc chunks = imap (chunk_doc doc chunks) chunks.
Proof.
  unfold derived, inner_loop, enumerate. by rewrite foldl_enumerate_from.
Qed.

Lemma derived_lookup doc chunks i :
  derived doc chunks !! i = chunk_doc doc chunks i <$> chunks !! i.
Proof. by rewrite derived_imap, list_lookup_imap. Qed.

Lemma derived_length doc chunks : length (derived doc chunks) = length chunks.
Proof. by rewrite derived_imap, length_imap. Qed.

Lemma derived_contents doc chunks : page_content <$> derived doc chunks = chunks.
Proof.
  apply list_eq. intros i. rewrite list_lookup_fmap, derived_lookup.
  by destruct (chunks !! i).
Qed.

Lemma derived_chunk_index doc chunks :
  chunk_index <$> derived doc chunks
  = (λ i, Some (VInt (Z.of_nat i))) <$> seq 0 (length chunks).
Proof.
  apply list_eq. intros i. rewrite !list_lookup_fmap, derived_lookup.
  destruct (chunks !! i) as [c|] eqn:Hc; simpl.
  - rewrite lookup_seq_lt by (by eapply lookup_lt_Some). simpl.
    unfold chunk_index, chunk_doc, chunk_metadata. simpl.
    by rewrite lookup_insert_ne, lookup_insert_eq.
  - by rewrite lookup_seq_ge by (by apply lookup_ge_None).
Qed.

Lemma derived_total_chunks doc chunks cd :
  cd ∈ derived doc chunks →
  total_chunks cd = Some (VInt (Z.of_nat (length chunks))).
Proof.
  intros [i Hi]%list_elem_of_lookup. rewrite derived_lookup in Hi.
  destruct (chunks !! i); simplify_eq/=.
  unfold total_chunks, chunk_doc, chunk_metadata. simpl. apply lookup_insert_eq.
Qed.

Lemma derived_chunk_index_range doc chunks cd :
  cd ∈ derived doc chunks →
  ∃ i : Z, chunk_index cd = Some (VInt i) ∧ (0 ≤ i < Z.of_nat (length chunks))%Z.
Proof.
  intros [i Hi]%list_elem_of_lookup. rewrite derived_lookup in Hi.
  destruct (chunks !! i) as [c|] eqn:Hc; simplify_eq/=.
  exists (Z.of_nat i). split.
  - unfold chunk_index, chunk_doc, chunk_metadata. simpl.
    by rewrite lookup_insert_ne, lookup_insert_eq.
  - apply lookup_lt_Some in Hc. lia.
Qed.

Section workflow_facts.
Context {E : Type} (split_text : string → result E (list string)).

Lemma outer_loop_acc documents all_chunks :
  outer_loop split_text documents all_chunks
  = out ← outer_loop split_text documents []; Ok (all_chunks ++ out).
Proof.
  revert all_chunks. induction documents as [|doc rest IH]; intros acc; simpl.
  - by rewrite app_nil_r.
  - destruct (split_text (page_content doc)) as [chunks|e]; simpl; [|done].
    rewrite (IH (inner_loop _ _ acc)), (IH (inner_loop _ _ [])).
    destruct (outer_loop split_text rest []) as [out|e]; simpl; [|done].
    by rewrite !inner_loop_app, app_nil_l, app_assoc.
Qed.

Lemma workflow_cons doc rest :
  process_documents_workflow split_text (doc :: rest)
  = chunks ← split_text (page_content doc);
    out ← process_documents_workflow split_text rest;
    Ok (derived doc chunks ++ out).
Proof.
  unfold process_documents_workflow. simpl.
  destruct (split_text (page_content doc)) as [chunks|e]; simpl; [|done].
  by rewrite outer_loop_acc.
Qed.

Lemma workflow_app ds1 ds2 :
  process_documents_workflow split_text (ds1 ++ ds2)
  = out1 ← process_documents_workflow split_text ds1;
    out2 ← process_documents_workflow split_text ds2;
    Ok (out1 ++ out2).
Proof.
  induction ds1 as [|doc ds1 IH].
  - simpl. by destruct (process_documents_workflow split_text ds2).
  - rewrite <-app_comm_cons, !workflow_cons, IH.
    destruct (split_text (page_content doc)) as [chunks|e]; simpl; [|done].
    destruct (process_documents_workflow split_text ds1) as [o1|e]; simpl; [|done].
    destruct (process_documents_workflow split_text ds2) as [o2|e]; simpl; [|done].
    by rewrite app_assoc.
Qed.

Lemma workflow_splits documents per_doc :
  splits split_text documents per_doc →
  process_documents_workflow split_text documents
  = Ok (concat (zip_with derived documents per_doc)).
Proof.
  induction 1 as [|doc chunks rest per_rest Hdoc _ IH]; [done|].
  by rewrite workflow_cons, Hdoc, IH.
Qed.

Lemma workflow_Ok_inv documents out :
  process_documents_workflow split_text documents = Ok out →
  ∃ per_doc, splits split_text documents per_doc
             ∧ out = concat (zip_with derived documents per_doc).
Proof.
  revert out. induction documents as [|doc rest IH]; intros out.
  - intros [= <-]. exists []. split; [constructor|done].
  - rewrite workflow_cons.
    destruct (split_text (page_content doc)) as [chunks|e] eqn:Hdoc; simpl; [|done].
    destruct (process_documents_workflow split_text rest) as [o|e]; simpl; [|done].
    intros [= <-]. destruct (IH o eq_refl) as (per_rest & Hrest & ->).
    exists (chunks :: per_rest). split; [by constructor|done].
Qed.
End workflow_facts.

(** ** Claims about the workflow *)

Section workflow_claims.
Context {E : Type} (split_text : string → result E (list string)).

(** C1. Whenever the splitter returns [per_doc] for [documents], the
    workflow returns the chunk documents of each parent in turn, and for
    every parent: it has as many chunk documents as the one [split_text]
    call returned texts; their [chunk_index] entries are 0, 1, ...,
    total-1 in order; each [chunk_index] lies in [0, total_chunks); and
    every [total_chunks] entry is the length of that one call's result. *)
Theorem workflow_chunk_index_total_chunks documents per_doc :
  splits split_text documents per_doc →
  process_documents_workflow split_text documents
    = Ok (concat (zip_with derived documents per_doc))
  ∧ Forall2 (λ doc chunks,
      let n := length chunks in
      length (derived doc chunks) = n
      ∧ page_content <$> derived doc chunks = chunks
      ∧ chunk_index <$> derived doc chunks
          = (λ i, Some (VInt (Z.of_nat i))) <$> seq 0 n
      ∧ Forall (λ cd,
          total_chunks cd = Some (VInt (Z.of_nat n))
          ∧ ∃ i : Z, chunk_index cd = Some (VInt i) ∧ (0 ≤ i < Z.of_nat n)%Z)
        (derived doc chunks))
    documents per_doc.
Proof.
  intros Hs. split; [by apply workflow_splits|].
  eapply Forall2_impl; [exact Hs|]. intros doc chunks _. simpl.
  split_and!.
  - apply derived_length.
  - apply derived_contents.
  - apply derived_chunk_index.
  - apply Forall_forall. intros cd Hcd. split.
    + by apply (derived_total_chunks doc).
    + by apply (derived_chunk_index_range doc).
Qed.

(** C2. The workflow's output is the concatenation, in document order, of
    the per-document chunk lists, each in the splitter's order; its length
    is the sum of the per-document chunk counts; and [total_chunks] on a
    chunk document is its own parent's chunk count. *)
Theorem workflow_concatenates_per_document documents per_doc :
  splits split_text documents per_doc →
  ∃ out,
    process_documents_workflow split_text documents = Ok out
    ∧ out = concat (zip_with derived documents per_doc)
    ∧ page_content <$> out = concat per_doc
    ∧ length out = sum_list (length <$> per_doc)
    ∧ Forall2 (λ doc chunks,
        Forall (λ cd, total_chunks cd = Some (VInt (Z.of_nat (length chunks))))
               (derived doc chunks))
      documents per_doc.
Proof.
  intros Hs. eexists. split; [by apply workflow_splits|]. split; [done|].
  split_and!.
  - induction Hs as [|doc chunks rest per_rest _ _ IH]; [done|]. simpl.
    by rewrite fmap_app, derived_contents, IH.
  - induction Hs as [|doc chunks rest per_rest _ _ IH]; [done|]. simpl.
    by rewrite length_app, derived_length, IH.
  - eapply Forall2_impl; [exact Hs|]. intros doc chunks _.
    apply Forall_forall. intros cd Hcd. by apply (derived_total_chunks doc).
Qed.

(** C10. The workflow distributes over concatenation of document lists:
    its run on [ds1 ++ ds2] is its run on [ds1] followed by its run on
    [ds2], outputs appended; and the empty list gives the empty output. *)
Theorem workflow_homomorphism ds1 ds2 :
  process_documents_workflow split_text (ds1 ++ ds2)
    = (out1 ← process_documents_workflow split_text ds1;
       out2 ← process_documents_workflow split_text ds2;
       Ok (out1 ++ out2))
  ∧ process_documents_workflow split_text [] = Ok [].
Proof. split; [apply workflow_app|done]. Qed.

(** C3. The metadata of the chunk document at position [i] of a parent is
    the parent's metadata overlaid with the two derived entries: the
    derived [chunk_index] and [total_chunks] are what a read returns, also
    when the parent already has such keys, and every other key reads as in
    the parent. *)
Theorem chunk_metadata_last_write_wins doc chunks i cd :
  derived doc chunks !! i = Some cd →
  metadata cd
    = {[ "chunk_index" := VInt (Z.of_nat i);
         "total_chunks" := VInt (Z.of_nat (length chunks)) ]} ∪ metadata doc
  ∧ metadata cd !! "chunk_index" = Some (VInt (Z.of_nat i))
  ∧ metadata cd !! "total_chunks" = Some (VInt (Z.of_nat (length chunks)))
  ∧ ∀ key, key ≠ "chunk_index" → key ≠ "total_chunks" →
           metadata cd !! key = metadata doc !! key.
Proof.
  rewrite derived_lookup. intros Hcd.
  destruct (chunks !! i) as [chunk|]; simplify_eq/=.
  unfold chunk_metadata. split_and!.
  - apply map_eq. intros key.
    destruct (decide (key = "total_chunks")) as [->|Ht];
      [|destruct (decide (key = "chunk_index")) as [->|Hi]].
    + rewrite lookup_insert_eq. symmetry. apply lookup_union_Some_raw. left.
      by rewrite lookup_insert_ne, lookup_singleton_eq.
    + rewrite lookup_insert_ne, lookup_insert_eq by done.
      symmetry. apply lookup_union_Some_raw. left. apply lookup_insert_eq.
    + rewrite !lookup_insert_ne by done. symmetry. apply lookup_union_r.
      by rewrite lookup_insert_ne, lookup_singleton_ne.
  - by rewrite lookup_insert_ne, lookup_insert_eq.
  - apply lookup_insert_eq.
  - intros key Hi Ht. by rewrite !lookup_insert_ne.
Qed.

(** C5, as the workflow has it.  When the splitter raises on some
    document, the workflow ends with exactly the error the splitter raised
    on the first such document: the documents before it were split, the
    ones after it are never reached, no list of chunk documents is
    returned, and nothing is added to the error. *)
Theorem workflow_propagates_first_failure documents :
  Exists (λ doc, ∃ e, split_text (page_content doc) = Raise e) documents →
  ∃ ds1 doc ds2 per_doc e,
    documents = ds1 ++ doc :: ds2
    ∧ splits split_text ds1 per_doc
    ∧ split_text (page_content doc) = Raise e
    ∧ process_documents_workflow split_text documents = Raise e
    ∧ ∀ out, process_documents_workflow split_text documents ≠ Ok out.
Proof.
  induction documents as [|doc rest IH]; intros Hex.
  - by apply Exists_nil in Hex.
  - destruct (split_text (page_content doc)) as [chunks|e] eqn:Hdoc.
    + apply Exists_cons in Hex as [[e He]|Hex]; [congruence|].
      destruct (IH Hex) as (ds1 & bad & ds2 & per_doc & e & -> & Hs & Hbad & Hr & _).
      exists (doc :: ds1), bad, ds2, (chunks :: per_doc), e.
      assert (process_documents_workflow split_text (doc :: ds1 ++ bad :: ds2)
              = Raise e) as Hw by (by rewrite workflow_cons, Hdoc, Hr).
      split_and!; [done|by constructor|done|done|].
      intros out. simpl. by rewrite Hw.
    + exists [], doc, rest, [], e.
      assert (process_documents_workflow split_text (doc :: rest) = Raise e)
        as Hw by (by rewrite workflow_cons, Hdoc).
      split_and!; [done|constructor|done|done|].
      intros out. rewrite Hw. done.
Qed.

(** C9. With a splitter that returns no chunk for the empty text, a
    document whose text is empty gets no chunk document, and the workflow
    returns what it returns on the batch without that document, so the
    entries of its neighbours' chunk documents are the same. *)
Theorem workflow_skips_empty_document ds1 doc ds2 :
  split_text "" = Ok [] →
  page_content doc = "" →
  (∃ chunks, split_text (page_content doc) = Ok chunks ∧ derived doc chunks = [])
  ∧ process_documents_workflow split_text (ds1 ++ doc :: ds2)
    = process_documents_workflow split_text (ds1 ++ ds2).
Proof.
  intros Hempty Hdoc. split.
  - exists []. by rewrite Hdoc.
  - rewrite !workflow_app, workflow_cons, Hdoc, Hempty. simpl.
    destruct (process_documents_workflow split_text ds1) as [o1|e]; simpl; [|done].
    by destruct (process_documents_workflow split_text ds2).
Qed.
End workflow_claims.

(** ** The claims at the sample batch *)

Lemma sample_splits : splits sample_split sample_documents sample_per_doc.
Proof. repeat constructor. Qed.

Lemma workflow_chunk_index_total_chunks_sample :
  splits sample_split sample_documents sample_per_doc
  ∧ process_documents_workflow sample_split sample_documents
      = Ok (concat (zip_with derived sample_documents sample_per_doc))
  ∧ Forall2 (λ doc chunks,
      let n := length chunks in
      length (derived doc chunks) = n
      ∧ page_content <$> derived doc chunks = chunks
      ∧ chunk_index <$> derived doc chunks
          = (λ i, Some (VInt (Z.of_nat i))) <$> seq 0 n
      ∧ Forall (λ cd,
          total_chunks cd = Some (VInt (Z.of_nat n))
          ∧ ∃ i : Z, chunk_index cd = Some (VInt i) ∧ (0 ≤ i < Z.of_nat n)%Z)
        (derived doc chunks))
    sample_documents sample_per_doc.
Proof.
  split; [apply sample_splits|].
  apply (workflow_chunk_index_total_chunks sample_split), sample_splits.
Defined.

Lemma workflow_concatenates_per_document_sample :
  splits sample_split sample_documents sample_per_doc
  ∧ ∃ out,
      process_documents_workflow sample_split sample_documents = Ok out
      ∧ out = concat (zip_with derived sample_documents sample_per_doc)
      ∧ page_content <$> out = concat sample_per_doc
      ∧ length out = sum_list (length <$> sample_per_doc)
      ∧ Forall2 (λ doc chunks,
          Forall (λ cd, total_chunks cd = Some (VInt (Z.of_nat (length chunks))))
                 (derived doc chunks))
        sample_documents sample_per_doc.
Proof.
  split; [apply sample_splits|].
  apply (workflow_concatenates_per_document sample_split), sample_splits.
Defined.

(** At the sample batch the output has three chunk documents, while the
    [total_chunks] entries read 2, 2 and 1: the parents' own counts. *)
Example sample_total_chunks_per_parent :
  ∃ out, process_documents_workflow sample_split sample_documents = Ok out
         ∧ length out = 3
         ∧ total_chunks <$> out = [Some (VInt 2); Some (VInt 2); Some (VInt 1)].
Proof. eexists. split; [reflexivity|]. split; vm_compute; reflexivity. Qed.

Lemma chunk_metadata_last_write_wins_sample :
  let chunks := ["alpha"; "beta"] in
  let cd := chunk_doc doc_row0 chunks 1 "beta" in
  derived doc_row0 chunks !! 1 = Some cd
  ∧ metadata doc_row0 !! "chunk_index" = Some (VInt 99)
  ∧ metadata cd
      = {[ "chunk_index" := VInt 1; "total_chunks" := VInt 2 ]} ∪ metadata doc_row0
  ∧ metadata cd !! "chunk_index" = Some (VInt 1)
  ∧ metadata cd !! "total_chunks" = Some (VInt 2)
  ∧ ∀ key, key ≠ "chunk_index" → key ≠ "total_chunks" →
           metadata cd !! key = metadata doc_row0 !! key.
Proof.
  intros chunks cd.
  assert (derived doc_row0 chunks !! 1 = Some cd) as Hcd by reflexivity.
  split; [exact Hcd|]. split; [reflexivity|].
  exact (chunk_metadata_last_write_wins doc_row0 chunks 1 cd Hcd).
Defined.

Lemma workflow_propagates_first_failure_sample :
  let documents := [doc_row0; doc_bad; doc_row2] in
  Exists (λ doc, ∃ e, sample_split (page_content doc) = Raise e) documents
  ∧ ∃ ds1 doc ds2 per_doc e,
      documents = ds1 ++ doc :: ds2
      ∧ splits sample_split ds1 per_doc
      ∧ sample_split (page_content doc) = Raise e
      ∧ process_documents_workflow sample_split documents = Raise e
      ∧ ∀ out, process_documents_workflow sample_split documents ≠ Ok out.
Proof.
  intros documents.
  assert (Exists (λ doc, ∃ e, sample_split (page_content doc) = Raise e) documents)
    as Hex by (apply Exists_cons_tl, Exists_cons_hd; exists "boom"; reflexivity).
  split; [exact Hex|].
  exact (workflow_propagates_first_failure sample_split documents Hex).
Defined.

Lemma workflow_skips_empty_document_sample :
  sample_split "" = Ok []
  ∧ page_content doc_blank = ""
  ∧ (∃ chunks, sample_split (page_content doc_blank) = Ok chunks
               ∧ derived doc_blank chunks = [])
  ∧ process_documents_workflow sample_split ([doc_row0] ++ doc_blank :: [doc_row2])
    = process_documents_workflow sample_split ([doc_row0] ++ [doc_row2]).
Proof.
  split; [reflexivity|]. split; [reflexivity|].
  exact (workflow_skips_empty_document sample_split
           [doc_row0] doc_blank [doc_row2] eq_refl eq_refl).
Defined.

(** C5, as stated, fails.  On one and the same batch, a splitter raising on
    the second document and a splitter raising on the first one surface the
    same error, so no reading of the surfaced error, even with the batch at
    hand, tells which document was the offending one. *)
Lemma surfaced_error_does_not_locate_document :
  process_documents_workflow (raise_on "bad") [doc_row2; doc_bad] = Raise "boom"
  ∧ process_documents_workflow (raise_on "gamma") [doc_row2; doc_bad] = Raise "boom"
  ∧ ¬ ∃ locate : string → list Document → nat,
        locates locate (raise_on "bad") [doc_row2; doc_bad]
        ∧ locates locate (raise_on "gamma") [doc_row2; doc_bad].
Proof.
  split; [reflexivity|]. split; [reflexivity|].
  intros (locate & Hbad & Hgamma).
  destruct (Hbad "boom" eq_refl) as (d1 & Hd1 & Hs1).
  destruct (Hgamma "boom" eq_refl) as (d2 & Hd2 & Hs2).
  destruct (locate "boom" [doc_row2; doc_bad]) as [|[|n]]; simplify_eq/=.
Qed.

(** * Properties of the structural splitter *)

Lemma find_marker_lookup markers line level i prefix label :
  find_marker level markers line = Some (i, prefix, label) →
  level ≤ i ∧ markers !! (i - level) = Some (prefix, label).
Proof.
  revert level. induction markers as [|[p l] rest IH]; intros level; simpl; [done|].
  assert (find_marker (S level) rest line = Some (i, prefix, label) →
          level ≤ i ∧ ((p, l) :: rest) !! (i - level) = Some (prefix, label)) as Hdeep.
  { intros [Hle Hi]%IH. split; [lia|].
    by replace (i - level) with (S (i - S level)) by lia. }
  assert (Some (level, p, l) = Some (i, prefix, label) →
          level ≤ i ∧ ((p, l) :: rest) !! (i - level) = Some (prefix, label)) as Hhere.
  { intros [= <- <- <-]. by rewrite Nat.sub_diag. }
  destruct (strip_prefix p line); [|done].
  destruct (find_marker (S level) rest line) as [[[j p'] l']|]; [|done].
  by destruct (String.length p <? String.length p').
Qed.

Lemma match_marker_lookup markers line level label heading :
  match_marker markers line = Some (level, label, heading) →
  ∃ prefix, markers !! level = Some (prefix, label).
Proof.
  unfold match_marker.
  destruct (find_marker 0 markers line) as [[[i p] l]|] eqn:Hfind; simpl; [|done].
  destruct (strip_prefix p line); simpl; [|done].
  intros [= <- <- <-]. apply find_marker_lookup in Hfind as [_ Hi].
  rewrite Nat.sub_0_r in Hi. eauto.
Qed.

Lemma update_path_lookup_self markers level label heading path :
  update_path markers level label heading path !! label = Some heading.
Proof. apply lookup_insert_eq. Qed.

Lemma update_path_lookup_ancestor markers i pi li j pj lj heading path :
  NoDup markers.*2 →
  markers !! i = Some (pi, li) → markers !! j = Some (pj, lj) → i < j →
  update_path markers j lj heading path !! li = path !! li.
Proof.
  intros Hnodup Hi Hj Hlt. unfold update_path.
  assert (markers.*2 !! i = Some li) as Hli by (by rewrite list_lookup_fmap, Hi).
  assert (markers.*2 !! j = Some lj) as Hlj by (by rewrite list_lookup_fmap, Hj).
  rewrite lookup_insert_ne.
  2:{ intros ->. pose proof (NoDup_lookup _ _ _ _ Hnodup Hli Hlj). lia. }
  apply lookup_foldr_delete_not_elem_of.
  intros [k Hk]%list_elem_of_lookup.
  rewrite list_lookup_fmap, lookup_drop, <-list_lookup_fmap in Hk.
  pose proof (NoDup_lookup _ _ _ _ Hnodup Hli Hk). lia.
Qed.

Lemma heading_path_snoc markers ls line :
  heading_path markers (ls ++ [line]) = path_step markers (heading_path markers ls) line.
Proof. unfold heading_path. by rewrite foldl_app. Qed.

(** A heading stays in the path as long as only deeper headers follow. *)
Lemma heading_path_keeps_ancestor markers pre line post level label heading :
  NoDup markers.*2 →
  match_marker markers line = Some (level, label, heading) →
  Forall (λ l, ∀ j lj hj, match_marker markers l = Some (j, lj, hj) → level < j) post →
  heading_path markers (pre ++ line :: post) !! label = Some heading.
Proof.
  intros Hnodup Hline. induction post as [|l post IH] using rev_ind; intros Hpost.
  - rewrite heading_path_snoc. unfold path_step. rewrite Hline.
    apply update_path_lookup_self.
  - apply Forall_app in Hpost as [Hpost Hl]. apply Forall_inv in Hl.
    replace (pre ++ line :: post ++ [l]) with ((pre ++ line :: post) ++ [l])
      by (by rewrite <-app_assoc).
    rewrite heading_path_snoc. unfold path_step.
    destruct (match_marker markers l) as [[[j lj] hj]|] eqn:Hmatch; [|by apply IH].
    destruct (match_marker_lookup _ _ _ _ _ Hline) as [pi Hi].
    destruct (match_marker_lookup _ _ _ _ _ Hmatch) as [pj Hj].
    rewrite (update_path_lookup_ancestor markers level pi label j pj lj);
      [by apply IH|done..|by eapply Hl].
Qed.

Lemma scan_step_path markers st line :
  scan_path (scan_step markers st line) = path_step markers (scan_path st) line.
Proof. unfold scan_step. by destruct (match_marker markers line). Qed.

Lemma segment_chunks_snoc markers segs seg :
  segment_chunks markers (segs ++ [seg])
  = segment_chunks markers segs
    ++ [{| header_content := join_lines seg;
           header_metadata := heading_path markers (concat segs ++ seg) |}].
Proof.
  unfold segment_chunks. rewrite imap_app. f_equal.
  - apply imap_ext. intros i s Hi. simpl. do 3 f_equal.
    apply lookup_lt_Some in Hi. rewrite take_app_le by lia. done.
  - simpl. rewrite Nat.add_0_r. do 3 f_equal.
    rewrite take_ge by (rewrite length_app; simpl; lia).
    rewrite concat_app. simpl. by rewrite app_nil_r.
Qed.

(** The cutting the scan has made after the lines [ls]: the closed segments
    [segs], whose chunks have been emitted, followed by the lines of the
    chunk being built.  Every segment is cut just before a header line and
    holds no other header line. *)
Lemma scan_segments markers ls :
  ∃ segs,
    let st := foldl (scan_step markers) scan_init ls in
    ls = concat segs ++ scan_current st
    ∧ scan_path st = heading_path markers ls
    ∧ scan_emitted st = segment_chunks markers segs
    ∧ Forall (λ seg, seg ≠ []) segs
    ∧ Forall (λ seg, Forall (λ l, match_marker markers l = None) (tail seg)) segs
    ∧ (∀ i seg, segs !! S i = Some seg →
         ∃ h, head seg = Some h ∧ is_Some (match_marker markers h))
    ∧ Forall (λ l, match_marker markers l = None) (tail (scan_current st))
    ∧ (segs ≠ [] →
         ∃ h, head (scan_current st) = Some h ∧ is_Some (match_marker markers h))
    ∧ (ls ≠ [] → scan_current st ≠ []).
Proof.
  induction ls as [|line ls IH] using rev_ind.
  - exists []. simpl. split_and!; try done; try constructor.
  - destruct IH as (segs & IH). rewrite foldl_app. simpl in *.
    set (st := foldl (scan_step markers) scan_init ls) in *.
    destruct IH as (Hls & Hpath & Hemitted & Hne & Htails & Hheads & Htail & Hhead & Hcur).
    assert (scan_path (scan_step markers st line)
            = heading_path markers (ls ++ [line])) as Hpath'
      by (by rewrite scan_step_path, Hpath, heading_path_snoc).
    unfold scan_step in *.
    destruct (match_marker markers line) as [m|] eqn:Hline; simpl in *.
    + destruct (scan_current st) as [|c cs] eqn:Hcurrent.
      * (* nothing was being built: no line has been read yet *)
        assert (ls = []) as -> by (destruct ls; [done|by destruct Hcur]).
        assert (segs = []) as ->.
        { destruct segs as [|seg segs]; [done|].
          apply Forall_cons in Hne as [Hseg _]. destruct seg; simplify_eq/=. }
        exists []. unfold flush. rewrite Hcurrent. simpl.
        split_and!; try done; try constructor.
      * exists (segs ++ [c :: cs]).
        split_and!.
        -- by rewrite concat_app, Hls; simpl; rewrite app_nil_r.
        -- done.
        -- unfold flush. rewrite Hcurrent, segment_chunks_snoc, Hemitted, Hpath.
           by rewrite Hls.
        -- apply Forall_app. split; [done|]. by repeat constructor.
        -- apply Forall_app. split; [done|]. by repeat constructor.
        -- intros i seg Hi.
           destruct (decide (S i < length segs)) as [Hlt|Hge].
           ++ rewrite lookup_app_l in Hi by done. by eapply Hheads.
           ++ rewrite lookup_app_r in Hi by lia.
              apply list_lookup_singleton_Some in Hi as [Hi <-].
              apply Hhead. destruct segs; simpl in *; [lia|done].
        -- constructor.
        -- intros _. exists line. split; [done|]. by rewrite Hline.
        -- done.
    + exists segs. split_and!.
      * by rewrite Hls, app_assoc.
      * done.
      * done.
      * done.
      * done.
      * done.
      * destruct (scan_current st) as [|c cs]; simpl in *; [constructor|].
        apply Forall_app. split; [done|]. by repeat constructor.
      * intros Hsegs. destruct (Hhead Hsegs) as (h & Hh & Hm).
        exists h. split; [|done].
        destruct (scan_current st); simplify_eq/=. done.
      * intros _. by destruct (scan_current st).
Qed.

(** The chunks returned for the lines [ls] are those of one cutting of all
    of [ls], made just before header lines only. *)
Lemma header_split_lines_segments markers ls :
  ∃ segs,
    ls = concat segs
    ∧ header_split_lines markers ls = segment_chunks markers segs
    ∧ Forall (λ seg, seg ≠ []) segs
    ∧ Forall (λ seg, Forall (λ l, match_marker markers l = None) (tail seg)) segs
    ∧ (∀ i seg, segs !! S i = Some seg →
         ∃ h, head seg = Some h ∧ is_Some (match_marker markers h)).
Proof.
  destruct (scan_segments markers ls) as (segs & Hsegs). simpl in Hsegs.
  unfold header_split_lines.
  set (st := foldl (scan_step markers) scan_init ls) in *.
  destruct Hsegs as (Hls & Hpath & Hemitted & Hne & Htails & Hheads & Htail & Hhead & Hcur).
  unfold flush. destruct (scan_current st) as [|c cs] eqn:Hcurrent.
  - exists segs. rewrite !app_nil_r in *. by split_and!.
  - exists (segs ++ [c :: cs]). split_and!.
    + by rewrite concat_app, Hls; simpl; rewrite app_nil_r.
    + rewrite segment_chunks_snoc, Hemitted, Hpath. by rewrite Hls.
    + apply Forall_app. split; [done|]. by repeat constructor.
    + apply Forall_app. split; [done|]. by repeat constructor.
    + intros i seg Hi.
      destruct (decide (S i < length segs)) as [Hlt|Hge].
      * rewrite lookup_app_l in Hi by done. by eapply Hheads.
      * rewrite lookup_app_r in Hi by lia.
        apply list_lookup_singleton_Some in Hi as [Hi <-].
        apply Hhead. destruct segs; simpl in *; [lia|done].
Qed.

(** On the notebook's [long_text] the scan gives the four sections and the
    heading paths that the notebook's recorded run of the library printed
    (those of the first three sections). *)
Example long_text_length : String.length long_text = 800.
Proof. vm_compute. reflexivity. Qed.

Example long_text_sections :
  header_metadata <$> header_split_text headers_to_split_on long_text
  = [ {[ "Header 1" := "Introduction to Artificial Intelligence" ]};
      {[ "Header 1" := "Introduction to Artificial Intelligence";
         "Header 2" := "History of AI" ]};
      {[ "Header 1" := "Introduction to Artificial Intelligence";
         "Header 2" := "History of AI";
         "Header 3" := "Early Developments" ]};
      {[ "Header 1" := "Introduction to Artificial Intelligence";
         "Header 2" := "Applications of AI" ]} ].
Proof. vm_compute. reflexivity. Qed.

(** C7. In the scenario the structural splitter yields exactly two chunks:
    the first with metadata {"Header 1": "A"} and a content containing
    text1, the second with metadata {"Header 1": "A", "Header 2": "B"} and a
    content containing text2.  In general the chunks returned for a text are
    those of one cutting of its lines into consecutive segments, each cut
    made just before a header line and at no other place: the chunk of a
    segment has the lines of that segment as its content, and its metadata
    is the heading path after all the lines up to the end of that segment,
    that is the heading path at its emission.  So, with distinct labels,
    the metadata of a chunk holds the heading of every header line read up
    to the end of the chunk that was followed only by deeper headers: a
    chunk that starts with a header carries that heading and the headings
    of the shallower headers it is under. *)
Theorem header_split_carries_heading_path :
  (∃ c1 c2,
     header_split_text scenario_markers scenario_text = [c1; c2]
     ∧ header_metadata c1 = {[ "Header 1" := "A" ]}
     ∧ contains "text1" (header_content c1) = true
     ∧ header_metadata c2 = {[ "Header 1" := "A"; "Header 2" := "B" ]}
     ∧ contains "text2" (header_content c2) = true)
  ∧ ∀ markers text,
      ∃ segs,
        lines text = concat segs
        ∧ header_split_text markers text
          = imap (λ i seg, {| header_content := join_lines seg;
                              header_metadata :=
                                heading_path markers (concat (take (S i) segs)) |})
                 segs
        ∧ Forall (λ seg, seg ≠ []) segs
        ∧ Forall (λ seg, Forall (λ l, match_marker markers l = None) (tail seg)) segs
        ∧ (∀ i seg, segs !! S i = Some seg →
             ∃ h, head seg = Some h ∧ is_Some (match_marker markers h))
        ∧ (NoDup markers.*2 →
           ∀ i chunk pre line post level label heading,
             header_split_text markers text !! i = Some chunk →
             concat (take (S i) segs) = pre ++ line :: post →
             match_marker markers line = Some (level, label, heading) →
             Forall (λ l, ∀ j lj hj,
                       match_marker markers l = Some (j, lj, hj) → level < j) post →
             header_metadata chunk !! label = Some heading)
        ∧ (NoDup markers.*2 →
           ∀ i chunk h rest pre line mid level label heading j lj hj,
             header_split_text markers text !! i = Some chunk →
             segs !! i = Some (h :: rest) →
             match_marker markers h = Some (j, lj, hj) →
             concat (take i segs) = pre ++ line :: mid →
             match_marker markers line = Some (level, label, heading) →
             level < j →
             Forall (λ l, ∀ j' lj' hj',
                       match_marker markers l = Some (j', lj', hj') → level < j') mid →
             header_metadata chunk !! lj = Some hj
             ∧ header_metadata chunk !! label = Some heading).
Proof.
  split.
  - do 2 eexists. split; [vm_compute; reflexivity|].
    split_and!; vm_compute; reflexivity.
  - intros markers text. unfold header_split_text.
    destruct (header_split_lines_segments markers (lines text))
      as (segs & Hlines & Hout & Hne & Htails & Hheads).
    exists segs. fold (segment_chunks markers segs). rewrite Hout.
    assert (∀ i chunk, segment_chunks markers segs !! i = Some chunk →
              header_metadata chunk
              = heading_path markers (concat (take (S i) segs))) as Hmeta.
    { intros i chunk. unfold segment_chunks. rewrite list_lookup_imap.
      destruct (segs !! i); intros; simplify_eq/=. done. }
    assert (∀ seg rest h, h :: rest = seg → seg ∈ segs →
              Forall (λ l, match_marker markers l = None) rest) as Hrest.
    { intros seg rest h <- Hin.
      by apply (proj1 (Forall_forall _ _) Htails) in Hin. }
    split_and!; [done..| |].
    + intros Hnodup i chunk pre line post level label heading Hi Hcut Hline Hpost.
      rewrite (Hmeta i chunk Hi), Hcut.
      by apply (heading_path_keeps_ancestor _ _ _ _ level).
    + intros Hnodup i chunk h rest pre line mid level label heading j lj hj
        Hi Hseg Hh Hcut Hline Hlt Hmid.
      assert (concat (take (S i) segs) = concat (take i segs) ++ h :: rest) as Hsplit.
      { rewrite (take_S_r _ _ _ Hseg), concat_app. simpl. by rewrite app_nil_r. }
      assert (Forall (λ l, match_marker markers l = None) rest) as Hnone
        by (eapply Hrest; [done|by eapply list_elem_of_lookup_2]).
      rewrite (Hmeta i chunk Hi), Hsplit. split.
      * apply (heading_path_keeps_ancestor _ _ _ _ j); [done..|].
        eapply Forall_impl; [exact Hnone|]. intros l Hl j' lj' hj' Hl'. congruence.
      * rewrite Hcut, <-app_assoc. simpl.
        apply (heading_path_keeps_ancestor _ _ _ _ level); [done..|].
        apply Forall_app. split; [done|]. constructor.
        -- intros j' lj' hj' Hh'. rewrite Hh in Hh'. by simplify_eq.
        -- eapply Forall_impl; [exact Hnone|]. intros l Hl j' lj' hj' Hl'. congruence.
Qed.

Lemma header_split_carries_heading_path_sample :
  ∃ segs,
    lines scenario_text = concat segs
    ∧ header_split_text scenario_markers scenario_text
      = imap (λ i seg, {| header_content := join_lines seg;
                          header_metadata :=
                            heading_path scenario_markers (concat (take (S i) segs)) |})
             segs
    ∧ Forall (λ seg, seg ≠ []) segs.
Proof.
  destruct (proj2 header_split_carries_heading_path scenario_markers scenario_text)
    as (segs & Hlines & Hout & Hne & _).
  by exists segs.
Defined.

(** * Further properties of the workflow *)

Section workflow_more.
Context {E : Type} (split_text : string → result E (list string)).

(** X1. The workflow returns a list exactly when [split_text] returns on
    the text of every document of the batch. *)
Theorem workflow_returns_iff_splits_return documents :
  (∃ out, process_documents_workflow split_text documents = Ok out)
  ↔ Forall (λ doc, ∃ chunks, split_text (page_content doc) = Ok chunks) documents.
Proof.
  induction documents as [|doc rest IH].
  - split; [constructor|by exists []].
  - rewrite workflow_cons, Forall_cons, <-IH.
    destruct (split_text (page_content doc)) as [chunks|e]; simpl.
    + destruct (process_documents_workflow split_text rest) as [out|e]; simpl.
      * split; [eauto|]. intros _. eauto.
      * split; [by intros [? ?]|]. by intros [_ [? ?]].
    + split; [by intros [? ?]|]. by intros [[? ?] _].
Qed.

(** X2. The documents that follow a document on which [split_text] raises
    have no part in the result: the workflow ends the same way whatever
    follows that document. *)
Theorem workflow_ignores_documents_after_failure ds1 bad ds2 ds2' e :
  split_text (page_content bad) = Raise e →
  process_documents_workflow split_text (ds1 ++ bad :: ds2)
  = process_documents_workflow split_text (ds1 ++ bad :: ds2').
Proof.
  intros Hbad. by rewrite !workflow_app, !workflow_cons, Hbad.
Qed.

Lemma workflow_ext ds ds' :
  Forall2 (λ d d', page_content d = page_content d'
                   ∧ ∀ chunks, derived d chunks = derived d' chunks) ds ds' →
  process_documents_workflow split_text ds = process_documents_workflow split_text ds'.
Proof.
  induction 1 as [|d d' ds ds' [Hc Hd] _ IH]; [done|].
  rewrite !workflow_cons, Hc, IH.
  destruct (split_text (page_content d')) as [chunks|e]; simpl; [|done].
  by rewrite Hd.
Qed.

(** X4. When [split_text] returns each document's text whole, as one chunk,
    the workflow returns one chunk document for each document, in order,
    with the text unchanged, [chunk_index] 0 and [total_chunks] 1. *)
Theorem workflow_whole_documents documents :
  Forall (λ doc, split_text (page_content doc) = Ok [page_content doc]) documents →
  process_documents_workflow split_text documents
  = Ok ((λ doc, {| page_content := page_content doc;
                   metadata := <["total_chunks" := VInt 1]>
                                 (<["chunk_index" := VInt 0]> (metadata doc)) |})
        <$> documents).
Proof.
  induction 1 as [|doc rest Hdoc _ IH]; [done|].
  by rewrite workflow_cons, Hdoc, IH.
Qed.

(** X5. When [split_text] returns at least one chunk for every document,
    the workflow returns at least as many chunk documents as it was given
    documents. *)
Theorem workflow_at_least_one_chunk_each documents per_doc :
  splits split_text documents per_doc →
  Forall (λ chunks, chunks ≠ []) per_doc →
  ∃ out, process_documents_workflow split_text documents = Ok out
         ∧ length documents ≤ length out.
Proof.
  intros Hs Hne. eexists. split; [by apply workflow_splits|].
  induction Hs as [|doc chunks rest per_rest _ _ IH]; [done|].
  apply Forall_cons in Hne as [Hchunks Hne]. simpl.
  rewrite length_app, derived_length.
  specialize (IH Hne). destruct chunks; [done|]. simpl. lia.
Qed.
End workflow_more.

Lemma chunk_metadata_rechunk doc chunks i chunks' j :
  <["total_chunks" := VInt (Z.of_nat (length chunks'))]>
    (<["chunk_index" := VInt (Z.of_nat j)]> (chunk_metadata doc chunks i))
  = chunk_metadata doc chunks' j.
Proof.
  unfold chunk_metadata. apply map_eq. intros key.
  destruct (decide (key = "total_chunks")) as [->|Ht].
  { by rewrite !lookup_insert_eq. }
  rewrite !(lookup_insert_ne _ "total_chunks") by done.
  destruct (decide (key = "chunk_index")) as [->|Hi].
  { by rewrite !lookup_insert_eq. }
  by rewrite !lookup_insert_ne by done.
Qed.

Lemma derived_rechunk doc chunks i chunk chunks' :
  derived (chunk_doc doc chunks i chunk) chunks'
  = derived {| page_content := chunk; metadata := metadata doc |} chunks'.
Proof.
  rewrite !derived_imap. apply imap_ext. intros j c _.
  unfold chunk_doc. f_equal.
  exact (chunk_metadata_rechunk doc chunks i chunks' j).
Qed.

(** X3. Running the workflow on the chunk documents of a parent gives what
    it gives on documents that carry the chunk texts with the parent's own
    metadata: the [chunk_index] and [total_chunks] of the first pass are
    overwritten by those of the second and cannot be told from the result. *)
Theorem workflow_rechunk_forgets_first_pass {E}
    (split_text : string → result E (list string)) doc chunks :
  process_documents_workflow split_text (derived doc chunks)
  = process_documents_workflow split_text
      ((λ chunk, {| page_content := chunk; metadata := metadata doc |}) <$> chunks).
Proof.
  apply workflow_ext, Forall2_lookup. intros i.
  rewrite derived_lookup, list_lookup_fmap.
  destruct (chunks !! i) as [chunk|]; constructor.
  split; [done|]. intros chunks'. apply derived_rechunk.
Qed.

(** X6. The chunk documents of one parent are pairwise distinct, also when
    the splitter returns the same text more than once: their [chunk_index]
    entries differ. *)
Theorem derived_NoDup doc chunks : NoDup (derived doc chunks).
Proof.
  apply NoDup_alt. intros i j cd Hi Hj.
  rewrite derived_lookup in Hi, Hj.
  destruct (chunks !! i) as [ci|], (chunks !! j) as [cj|]; simplify_eq/=.
  assert (chunk_metadata doc chunks i !! "chunk_index"
          = chunk_metadata doc chunks j !! "chunk_index") as Heq by congruence.
  unfold chunk_metadata in Heq.
  rewrite !(lookup_insert_ne _ "total_chunks"), !lookup_insert_eq in Heq by done.
  injection Heq as Heq. lia.
Qed.

Lemma workflow_ignores_documents_after_failure_sample :
  sample_split (page_content doc_bad) = Raise "boom"
  ∧ process_documents_workflow sample_split ([doc_row0] ++ doc_bad :: [doc_row2])
    = process_documents_workflow sample_split ([doc_row0] ++ doc_bad :: []).
Proof.
  split; [reflexivity|].
  exact (workflow_ignores_documents_after_failure sample_split
           [doc_row0] doc_bad [doc_row2] [] "boom" eq_refl).
Defined.

Lemma workflow_whole_documents_sample :
  let documents := [doc_row2; doc_row2] in
  Forall (λ doc, sample_split (page_content doc) = Ok [page_content doc]) documents
  ∧ process_documents_workflow sample_split documents
    = Ok ((λ doc, {| page_content := page_content doc;
                     metadata := <["total_chunks" := VInt 1]>
                                   (<["chunk_index" := VInt 0]> (metadata doc)) |})
          <$> documents).
Proof.
  intros documents.
  assert (Forall (λ doc, sample_split (page_content doc) = Ok [page_content doc])
                 documents) as Hall by (repeat constructor).
  split; [exact Hall|].
  exact (workflow_whole_documents sample_split documents Hall).
Defined.

Lemma workflow_at_least_one_chunk_each_sample :
  let documents := [doc_row0; doc_row2] in
  let per_doc := [["alpha"; "beta"]; ["gamma"]] in
  splits sample_split documents per_doc
  ∧ Forall (λ chunks : list string, chunks ≠ []) per_doc
  ∧ ∃ out, process_documents_workflow sample_split documents = Ok out
           ∧ length documents ≤ length out.
Proof.
  intros documents per_doc.
  assert (splits sample_split documents per_doc) as Hs by (repeat constructor).
  assert (Forall (λ chunks : list string, chunks ≠ []) per_doc) as Hne
    by (repeat constructor; discriminate).
  split; [exact Hs|]. split; [exact Hne|].
  exact (workflow_at_least_one_chunk_each sample_split documents per_doc Hs Hne).
Defined.

(** * Properties of [metadata_func] *)

Lemma metadata_func_lookup record metadata key :
  metadata_func record metadata !! key
  = if decide (key ∈ ["title"; "author"; "tags"; "published_date"])
    then Some (dict_get record key) else metadata !! key.
Proof.
  unfold metadata_func.
  destruct (decide (key = "published_date")) as [->|?].
  { by rewrite lookup_insert_eq. }
  rewrite lookup_insert_ne by done.
  destruct (decide (key = "tags")) as [->|?].
  { by rewrite lookup_insert_eq. }
  rewrite lookup_insert_ne by done.
  destruct (decide (key = "author")) as [->|?].
  { by rewrite lookup_insert_eq. }
  rewrite lookup_insert_ne by done.
  destruct (decide (key = "title")) as [->|?].
  { by rewrite lookup_insert_eq. }
  rewrite lookup_insert_ne by done.
  case_decide as Hin; [|done].
  repeat (apply elem_of_cons in Hin as [?|Hin]; [done|]).
  by apply elem_of_nil in Hin.
Qed.

(** X7. The metadata built for a JSON record always has the four keys
    title, author, tags and published_date: each holds the record's entry,
    or [None] when the record has no such key, also when the loader's
    metadata had an entry under that name.  Every other key reads as in the
    loader's metadata. *)
Theorem metadata_func_fields record metadata :
  (∀ key, key ∈ ["title"; "author"; "tags"; "published_date"] →
     metadata_func record metadata !! key = Some (default VNone (record !! key)))
  ∧ (∀ key, key ∉ ["title"; "author"; "tags"; "published_date"] →
     metadata_func record metadata !! key = metadata !! key).
Proof.
  split; intros key Hkey; rewrite metadata_func_lookup; by case_decide.
Qed.

(** X8. Every chunk document that the workflow derives from a document
    loaded with [metadata_func] still has the record's title, author, tags
    and published_date, and reads every key other than these four and the
    two derived ones as the loader's metadata does. *)
Theorem chunks_keep_record_fields record loader_metadata doc chunks cd :
  metadata doc = metadata_func record loader_metadata →
  cd ∈ derived doc chunks →
  (∀ key, key ∈ ["title"; "author"; "tags"; "published_date"] →
     metadata cd !! key = Some (default VNone (record !! key)))
  ∧ (∀ key, key ∉ ["title"; "author"; "tags"; "published_date";
                   "chunk_index"; "total_chunks"] →
     metadata cd !! key = loader_metadata !! key).
Proof.
  intros Hdoc [i Hi]%list_elem_of_lookup. rewrite derived_lookup in Hi.
  destruct (chunks !! i) as [chunk|]; simplify_eq/=.
  unfold chunk_metadata. rewrite Hdoc.
  split; intros key Hkey.
  - rewrite !lookup_insert_ne, metadata_func_lookup.
    + by case_decide.
    + intros <-. repeat (apply elem_of_cons in Hkey as [?|Hkey]; [done|]).
      by apply elem_of_nil in Hkey.
    + intros <-. repeat (apply elem_of_cons in Hkey as [?|Hkey]; [done|]).
      by apply elem_of_nil in Hkey.
  - rewrite !lookup_insert_ne, metadata_func_lookup.
    + case_decide as Hin; [|done]. exfalso. apply Hkey.
      repeat (apply elem_of_cons in Hin as [->|Hin]; [set_solver|]).
      by apply elem_of_nil in Hin.
    + intros <-. apply Hkey. set_solver.
    + intros <-. apply Hkey. set_solver.
Qed.

Lemma metadata_func_fields_sample :
  "author" ∈ ["title"; "author"; "tags"; "published_date"]
  ∧ sample_record !! "author" = None
  ∧ metadata_func sample_record sample_loader_metadata !! "author" = Some VNone.
Proof.
  assert ("author" ∈ ["title"; "author"; "tags"; "published_date"]) as Hin
    by (apply list_elem_of_lookup; exists 1; reflexivity).
  split; [exact Hin|]. split; [reflexivity|].
  exact (proj1 (metadata_func_fields sample_record sample_loader_metadata) "author" Hin).
Defined.

Lemma chunks_keep_record_fields_sample :
  let chunks := ["Machine learning"; "is a subset"] in
  let cd := chunk_doc doc_article chunks 1 "is a subset" in
  metadata doc_article = metadata_func sample_record sample_loader_metadata
  ∧ cd ∈ derived doc_article chunks
  ∧ (∀ key, key ∈ ["title"; "author"; "tags"; "published_date"] →
       metadata cd !! key = Some (default VNone (sample_record !! key)))
  ∧ (∀ key, key ∉ ["title"; "author"; "tags"; "published_date";
                     "chunk_index"; "total_chunks"] →
       metadata cd !! key = sample_loader_metadata !! key).
Proof.
  intros chunks cd.
  assert (cd ∈ derived doc_article chunks) as Hcd
    by (apply list_elem_of_lookup; exists 1; reflexivity).
  split; [reflexivity|]. split; [exact Hcd|].
  exact (chunks_keep_record_fields sample_record sample_loader_metadata
           doc_article chunks cd eq_refl Hcd).
Defined.

(** * Properties of [run_batch] *)

Section run_batch_facts.
Context {E Info : Type}.
Variable chain_invoke : string → result E Info.
Variable format_product_info : Info → result E string.
Variable str : E → string.

Lemma run_batch_foldl products st :
  foldl (run_batch_step chain_invoke format_product_info str) st products
  = (st.1 ++ omap (formatted_of chain_invoke format_product_info) products,
     st.2 ++ omap (printed_of chain_invoke format_product_info str) products).
Proof.
  revert st. induction products as [|p products IH]; intros [infos out]; simpl.
  - by rewrite !app_nil_r.
  - rewrite IH. unfold run_batch_step, formatted_of, printed_of.
    destruct (try_product _ _ p) as [formatted|e]; simpl; by rewrite <-app_assoc.
Qed.

(** X9. [run_batch] returns the formatted infos of exactly the products for
    which [chain.invoke] and [format_product_info] both returned, in the
    order of the products, and prints one line for each of the others, in
    that order, naming the product and the exception. *)
Theorem run_batch_results products :
  run_batch chain_invoke format_product_info str products
  = (omap (λ p, match try_product chain_invoke format_product_info p with
                | Ok formatted => Some formatted
                | Raise _ => None
                end) products,
     omap (λ p, match try_product chain_invoke format_product_info p with
                | Ok _ => None
                | Raise e => Some ("Error processing '" +:+ p +:+ "': " +:+ str e)
                end) products).
Proof. unfold run_batch. by rewrite run_batch_foldl. Qed.

(** X10. Every product is accounted for once: the number of returned infos
    and the number of printed lines add up to the number of products. *)
Theorem run_batch_accounts_for_every_product products :
  length (run_batch chain_invoke format_product_info str products).1
  + length (run_batch chain_invoke format_product_info str products).2
  = length products.
Proof.
  unfold run_batch. rewrite run_batch_foldl. simpl.
  induction products as [|p products IH]; [done|].
  change (length (p :: products)) with (S (length products)).
  rewrite <-IH. cbn [omap list_omap].
  unfold formatted_of at 1, printed_of at 1.
  destruct (try_product _ _ p); cbn [length]; lia.
Qed.

(** X11. [run_batch] distributes over concatenation of product lists, both
    in what it returns and in what it prints. *)
Theorem run_batch_app ps1 ps2 :
  run_batch chain_invoke format_product_info str (ps1 ++ ps2)
  = ((run_batch chain_invoke format_product_info str ps1).1
       ++ (run_batch chain_invoke format_product_info str ps2).1,
     (run_batch chain_invoke format_product_info str ps1).2
       ++ (run_batch chain_invoke format_product_info str ps2).2).
Proof.
  unfold run_batch. by rewrite !run_batch_foldl, !omap_app.
Qed.

(** X12. A product on which the chain or the formatter raises is skipped:
    the infos returned are those of the batch without it, the products
    after it are still processed, and a line naming the product and the
    exception is printed. *)
Theorem run_batch_skips_failure ps1 p ps2 e :
  try_product chain_invoke format_product_info p = Raise e →
  (run_batch chain_invoke format_product_info str (ps1 ++ p :: ps2)).1
  = (run_batch chain_invoke format_product_info str (ps1 ++ ps2)).1
  ∧ (run_batch chain_invoke format_product_info str (ps1 ++ p :: ps2)).2
    = (run_batch chain_invoke format_product_info str ps1).2
      ++ ("Error processing '" +:+ p +:+ "': " +:+ str e)
         :: (run_batch chain_invoke format_product_info str ps2).2.
Proof.
  intros Hp. unfold run_batch. rewrite !run_batch_foldl. simpl.
  rewrite !omap_app. simpl. unfold formatted_of at 2, printed_of at 2.
  by rewrite Hp.
Qed.
End run_batch_facts.

Lemma run_batch_skips_failure_sample :
  try_product sample_invoke sample_format "Kindle Paperwhite" = Raise "rate limit"
  ∧ (run_batch sample_invoke sample_format id
       (["Sony WH-1000XM5"] ++ "Kindle Paperwhite" :: ["Nintendo Switch OLED"])).1
    = (run_batch sample_invoke sample_format id
         (["Sony WH-1000XM5"] ++ ["Nintendo Switch OLED"])).1
  ∧ (run_batch sample_invoke sample_format id
       (["Sony WH-1000XM5"] ++ "Kindle Paperwhite" :: ["Nintendo Switch OLED"])).2
    = (run_batch sample_invoke sample_format id ["Sony WH-1000XM5"]).2
      ++ ("Error processing '" +:+ "Kindle Paperwhite" +:+ "': " +:+ id "rate limit")
         :: (run_batch sample_invoke sample_format id ["Nintendo Switch OLED"]).2.
Proof.
  split; [reflexivity|].
  exact (run_batch_skips_failure sample_invoke sample_format id
           ["Sony WH-1000XM5"] "Kindle Paperwhite" ["Nintendo Switch OLED"]
           "rate limit" eq_refl).
Defined.

(** * Properties of [cleanup_files] *)

Lemma not_under_sample_docs p :
  p ∈ files_to_remove → ¬ under "sample_docs" p.
Proof.
  intros Hp Hunder. unfold files_to_remove in Hp.
  apply elem_of_cons in Hp as [->|Hp];
    [|apply list_elem_of_singleton in Hp as ->];
    destruct Hunder as [Heq|[rest Hpre]]; discriminate.
Qed.

Lemma not_file_target q :
  q ∉ files_to_remove → q ≠ "employees.csv" ∧ q ≠ "articles.json".
Proof.
  intros Hq. split; intros ->; apply Hq; unfold files_to_remove.
  - apply list_elem_of_here.
  - apply list_elem_of_further, list_elem_of_here.
Qed.

Section cleanup_files_facts.
Context {FS E : Type}.
Variable path_exists : FS → string → bool.
Variable os_remove : FS → string → FS * option E.
Variable shutil_rmtree : FS → string → FS * option E.
Variable str : E → string.

(** What is asked of the file system: [os.remove] changes the existence of
    no other path, and leaves the path absent when it does not raise;
    [shutil.rmtree] changes the existence of no path outside the tree, and
    leaves the whole tree absent when it does not raise. *)
Hypothesis remove_frame : ∀ fs p q,
  q ≠ p → path_exists (os_remove fs p).1 q = path_exists fs q.
Hypothesis remove_done : ∀ fs p,
  (os_remove fs p).2 = None → path_exists (os_remove fs p).1 p = false.
Hypothesis rmtree_frame : ∀ fs d q,
  ¬ under d q → path_exists (shutil_rmtree fs d).1 q = path_exists fs q.
Hypothesis rmtree_done : ∀ fs d q,
  (shutil_rmtree fs d).2 = None → under d q →
  path_exists (shutil_rmtree fs d).1 q = false.

Lemma remove_step_frame remove removed (touched : string → Prop) st p q :
  (∀ fs, ¬ touched q → path_exists (remove fs p).1 q = path_exists fs q) →
  ¬ touched q →
  path_exists (remove_step path_exists str remove removed st p).1 q
  = path_exists st.1 q.
Proof.
  clear remove_frame remove_done rmtree_frame rmtree_done.
  intros Hframe Hq. unfold remove_step.
  destruct (path_exists st.1 p); [|done].
  specialize (Hframe st.1 Hq).
  by destruct (remove st.1 p) as [fs [e|]].
Qed.

Lemma remove_step_out remove removed st p line :
  line ∈ st.2 → line ∈ (remove_step path_exists str remove removed st p).2.
Proof.
  clear remove_frame remove_done rmtree_frame rmtree_done.
  intros Hline. unfold remove_step.
  destruct (path_exists st.1 p); [|done].
  destruct (remove st.1 p) as [fs [e|]]; simpl; set_solver.
Qed.

Lemma remove_step_post remove removed st p q :
  (∀ fs, (remove fs p).2 = None → path_exists (remove fs p).1 q = false) →
  (path_exists st.1 p = false → path_exists st.1 q = false) →
  path_exists (remove_step path_exists str remove removed st p).1 q = false
  ∨ ∃ e, error_removing str p e ∈ (remove_step path_exists str remove removed st p).2.
Proof.
  clear remove_frame remove_done rmtree_frame rmtree_done.
  intros Hdone Hparent. unfold remove_step.
  destruct (path_exists st.1 p); [|by left; apply Hparent].
  specialize (Hdone st.1).
  destruct (remove st.1 p) as [fs [e|]]; simpl in *.
  - right. exists e. set_solver.
  - left. by apply Hdone.
Qed.

Lemma remove_step_absent remove removed st p :
  path_exists st.1 p = false →
  remove_step path_exists str remove removed st p = st.
Proof.
  clear remove_frame remove_done rmtree_frame rmtree_done. intros Hp. unfold remove_step. by rewrite Hp. Qed.

(** X13. [cleanup_files] leaves alone every path other than employees.csv,
    articles.json and the tree of sample_docs: such a path exists afterwards
    exactly if it existed before. *)
Theorem cleanup_files_touches_only_its_targets fs q :
  q ∉ files_to_remove →
  ¬ under "sample_docs" q →
  path_exists (cleanup_files path_exists os_remove shutil_rmtree str fs).1 q
  = path_exists fs q.
Proof using remove_frame rmtree_frame.
  clear remove_done rmtree_done.
  intros [Hcsv Hjson]%not_file_target Hdir. unfold cleanup_files. simpl.
  rewrite (remove_step_frame _ _ (under "sample_docs"));
    [|intros fs' ?; by apply rmtree_frame|done].
  rewrite (remove_step_frame _ _ (λ q, q = "articles.json"));
    [|intros fs' ?; by apply remove_frame|done].
  rewrite (remove_step_frame _ _ (λ q, q = "employees.csv"));
    [|intros fs' ?; by apply remove_frame|done].
  done.
Qed.

Lemma cleanup_files_post fs :
  (∀ p, p ∈ files_to_remove →
     path_exists (cleanup_files path_exists os_remove shutil_rmtree str fs).1 p = false
     ∨ ∃ e, error_removing str p e
              ∈ (cleanup_files path_exists os_remove shutil_rmtree str fs).2)
  ∧ (∀ q, under "sample_docs" q →
     (path_exists fs "sample_docs" = false → path_exists fs q = false) →
     path_exists (cleanup_files path_exists os_remove shutil_rmtree str fs).1 q = false
     ∨ ∃ e, error_removing str "sample_docs" e
              ∈ (cleanup_files path_exists os_remove shutil_rmtree str fs).2).
Proof.
  unfold cleanup_files. simpl.
  set (st0 := (fs, [cleanup_header])).
  set (st1 := remove_step _ _ os_remove _ st0 "employees.csv").
  set (st2 := remove_step _ _ os_remove _ st1 "articles.json").
  set (st3 := remove_step _ _ shutil_rmtree _ st2 "sample_docs").
  split.
  - intros p Hp. pose proof (not_under_sample_docs p Hp) as Hnot.
    unfold st3. rewrite (remove_step_frame _ _ (under "sample_docs")) by auto.
    assert (path_exists st2.1 p = false ∨ ∃ e, error_removing str p e ∈ st2.2)
      as [Hgone|[e He]].
    { apply elem_of_cons in Hp as [->|Hp].
      - unfold st2. rewrite (remove_step_frame _ _ (λ q, q = "articles.json")) by auto.
        destruct (remove_step_post os_remove (λ file, "Removed " +:+ file)
                    st0 "employees.csv" "employees.csv") as [Hgone|[e He]];
          [by intros fs' ?; apply remove_done|done|by left|].
        right. exists e. by apply remove_step_out.
      - apply list_elem_of_singleton in Hp as ->.
        by apply remove_step_post; [intros fs' ?; apply remove_done|]. }
    + by left.
    + right. exists e. apply elem_of_app. left. by apply remove_step_out.
  - intros q Hq Hparent.
    destruct (remove_step_post shutil_rmtree (λ dir, "Removed directory " +:+ dir)
                st2 "sample_docs" q) as [Hgone|[e He]].
    + intros fs' Hnone. by apply rmtree_done.
    + assert (∀ r, under "sample_docs" r → path_exists st2.1 r = path_exists fs r)
        as Hsame.
      { intros r Hr. unfold st2, st1.
        rewrite (remove_step_frame _ _ (λ q, q = "articles.json")),
                (remove_step_frame _ _ (λ q, q = "employees.csv")); auto.
        - intros ->. by apply (not_under_sample_docs "employees.csv"); [set_solver|].
        - intros ->. by apply (not_under_sample_docs "articles.json"); [set_solver|]. }
      rewrite (Hsame "sample_docs"), (Hsame q) by (done || by left). done.
    + by left.
    + right. exists e. apply elem_of_app. by left.
Qed.

(** X14. After [cleanup_files], each of employees.csv and articles.json is
    absent unless a line "Error removing ..." for it was printed; and the
    same holds of sample_docs and of every path below it that had the
    directory itself present before. *)
Theorem cleanup_files_removes_or_reports fs :
  (∀ p, p ∈ files_to_remove →
     path_exists (cleanup_files path_exists os_remove shutil_rmtree str fs).1 p = false
     ∨ ∃ e, error_removing str p e
              ∈ (cleanup_files path_exists os_remove shutil_rmtree str fs).2)
  ∧ (∀ q, under "sample_docs" q →
     (path_exists fs "sample_docs" = false → path_exists fs q = false) →
     path_exists (cleanup_files path_exists os_remove shutil_rmtree str fs).1 q = false
     ∨ ∃ e, error_removing str "sample_docs" e
              ∈ (cleanup_files path_exists os_remove shutil_rmtree str fs).2).
Proof.
  destruct (cleanup_files_post fs) as [Hfiles Hdir].
  split; [exact Hfiles|exact Hdir].
Qed.

(** X15. When [cleanup_files] has printed no "Error removing ..." line, a
    second call finds nothing to remove: it leaves the file system as it is
    and prints only the opening and the closing line. *)
Theorem cleanup_files_twice fs :
  (∀ p e, error_removing str p e
            ∉ (cleanup_files path_exists os_remove shutil_rmtree str fs).2) →
  cleanup_files path_exists os_remove shutil_rmtree str
    (cleanup_files path_exists os_remove shutil_rmtree str fs).1
  = ((cleanup_files path_exists os_remove shutil_rmtree str fs).1,
     [cleanup_header; cleanup_footer]).
Proof.
  intros Hquiet.
  destruct (cleanup_files_post fs) as [Hfiles Hdir].
  set (fs' := (cleanup_files path_exists os_remove shutil_rmtree str fs).1) in *.
  assert (path_exists fs' "employees.csv" = false) as H1.
  { destruct (Hfiles "employees.csv") as [?|[e He]]; [set_solver|done|].
    by apply Hquiet in He. }
  assert (path_exists fs' "articles.json" = false) as H2.
  { destruct (Hfiles "articles.json") as [?|[e He]]; [set_solver|done|].
    by apply Hquiet in He. }
  assert (path_exists fs' "sample_docs" = false) as H3.
  { destruct (Hdir "sample_docs") as [?|[e He]]; [by left|done|done|].
    by apply Hquiet in He. }
  unfold cleanup_files at 1. simpl.
  rewrite (remove_step_absent _ _ (fs', [cleanup_header]) "employees.csv") by done.
  rewrite (remove_step_absent _ _ (fs', [cleanup_header]) "articles.json") by done.
  by rewrite (remove_step_absent _ _ (fs', [cleanup_header]) "sample_docs") by done.
Qed.
End cleanup_files_facts.

(** The sample file system meets what is asked of the file system. *)

Lemma not_under_spec d q : not_under d q = true ↔ ¬ under d q.
Proof.
  unfold not_under, under. rewrite andb_true_iff, !bool_decide_eq_true.
  destruct (strip_prefix (d +:+ "/") q) as [rest|].
  - split; [by intros [_ ?]|]. intros Hq. destruct Hq. right. by exists rest.
  - split; [|by intros Hq; split; [intros ->; apply Hq; left|]].
    intros [Hq _] [?|[? ?]]; done.
Qed.

Lemma flat_remove_frame fs p q :
  q ≠ p → flat_exists (flat_remove fs p).1 q = flat_exists fs q.
Proof.
  intros Hq. unfold flat_remove, flat_exists.
  destruct (fs !! p) as [[|]|]; simpl; [done| |done].
  by rewrite lookup_delete_ne.
Qed.

Lemma flat_remove_done fs p :
  (flat_remove fs p).2 = None → flat_exists (flat_remove fs p).1 p = false.
Proof.
  unfold flat_remove, flat_exists.
  destruct (fs !! p) as [[|]|]; simpl; [done| |done].
  intros _. rewrite lookup_delete_eq. apply bool_decide_eq_false. by intros [? ?].
Qed.

Lemma flat_rmtree_frame fs d q :
  ¬ under d q → flat_exists (flat_rmtree fs d).1 q = flat_exists fs q.
Proof.
  intros Hq%not_under_spec. unfold flat_rmtree, flat_exists.
  destruct (fs !! d) as [[|]|]; simpl; [|done..].
  apply bool_decide_ext. split; intros [x Hx]; exists x.
  - by apply map_lookup_filter_Some in Hx as [? _].
  - by apply map_lookup_filter_Some.
Qed.

Lemma flat_rmtree_done fs d q :
  (flat_rmtree fs d).2 = None → under d q →
  flat_exists (flat_rmtree fs d).1 q = false.
Proof.
  unfold flat_rmtree, flat_exists.
  destruct (fs !! d) as [[|]|]; simpl; [|done..].
  intros _ Hq. apply bool_decide_eq_false. intros [x Hx].
  apply map_lookup_filter_Some in Hx as [_ Hx]. simpl in Hx.
  apply not_under_spec in Hx. done.
Qed.

Lemma cleanup_files_touches_only_its_targets_sample :
  ("notes.txt" ∉ files_to_remove)
  ∧ (¬ under "sample_docs" "notes.txt")
  ∧ flat_exists (cleanup_files flat_exists flat_remove flat_rmtree os_error_str demo_fs).1
                "notes.txt"
    = flat_exists demo_fs "notes.txt".
Proof.
  assert ("notes.txt" ∉ files_to_remove) as Hfile.
  { intros Hin. unfold files_to_remove in Hin.
    apply elem_of_cons in Hin as [Heq|Hin]; [discriminate|].
    apply list_elem_of_singleton in Hin. discriminate. }
  assert (¬ under "sample_docs" "notes.txt") as Hdir.
  { intros [Heq|[rest Hpre]]; discriminate. }
  split; [exact Hfile|]. split; [exact Hdir|].
  exact (cleanup_files_touches_only_its_targets flat_exists flat_remove flat_rmtree
           os_error_str flat_remove_frame flat_rmtree_frame demo_fs "notes.txt"
           Hfile Hdir).
Defined.

Lemma cleanup_files_removes_or_reports_sample :
  "employees.csv" ∈ files_to_remove
  ∧ (flat_exists (cleanup_files flat_exists flat_remove flat_rmtree os_error_str demo_fs).1
                 "employees.csv" = false
     ∨ ∃ e, error_removing os_error_str "employees.csv" e
              ∈ (cleanup_files flat_exists flat_remove flat_rmtree os_error_str demo_fs).2).
Proof.
  assert ("employees.csv" ∈ files_to_remove) as Hin by apply list_elem_of_here.
  split; [exact Hin|].
  exact (proj1 (cleanup_files_removes_or_reports flat_exists flat_remove flat_rmtree
                  os_error_str flat_remove_frame flat_remove_done flat_rmtree_frame
                  flat_rmtree_done demo_fs) "employees.csv" Hin).
Defined.

Lemma cleanup_files_twice_sample :
  (∀ p e, error_removing os_error_str p e
            ∉ (cleanup_files flat_exists flat_remove flat_rmtree os_error_str demo_fs).2)
  ∧ cleanup_files flat_exists flat_remove flat_rmtree os_error_str
      (cleanup_files flat_exists flat_remove flat_rmtree os_error_str demo_fs).1
    = ((cleanup_files flat_exists flat_remove flat_rmtree os_error_str demo_fs).1,
       [cleanup_header; cleanup_footer]).
Proof.
  assert (∀ p e, error_removing os_error_str p e
            ∉ (cleanup_files flat_exists flat_remove flat_rmtree os_error_str demo_fs).2)
    as Hquiet.
  { intros p e Hin. vm_compute in Hin.
    repeat (apply elem_of_cons in Hin as [Heq|Hin]; [discriminate|]).
    by apply elem_of_nil in Hin. }
  split; [exact Hquiet|].
  exact (cleanup_files_twice flat_exists flat_remove flat_rmtree os_error_str
           flat_remove_frame flat_remove_done flat_rmtree_frame flat_rmtree_done
           demo_fs Hquiet).
Defined.

(** * The environment cell *)

Lemma export_each_only_checks keys env :
  export_each keys env
  = (env, if bool_decide (Forall (λ key, is_Some (env !! key)) keys)
          then None else Some TypeError).
Proof.
  induction keys as [|key keys IH]; cbn [export_each].
  - by rewrite bool_decide_eq_true_2 by constructor.
  - unfold getenv. destruct (env !! key) as [v|] eqn:Hkey; simpl.
    + rewrite (insert_id env key v) by done. rewrite IH.
      assert (bool_decide (Forall (λ key, is_Some (env !! key)) keys)
              = bool_decide (Forall (λ key, is_Some (env !! key)) (key :: keys)))
        as ->; [|done].
      apply bool_decide_ext. rewrite Forall_cons. split; [|by intros [_ ?]].
      intros Hkeys. split; [by exists v|done].
    + rewrite bool_decide_eq_false_2; [done|].
      intros [[? ?] _]%Forall_cons. congruence.
Qed.

(** X16. The cell never changes the environment: whether it runs to its
    end or is ended by [TypeError], the environment it leaves is the one it
    was given; and it runs to its end exactly when the three variables are
    set, raising [TypeError] otherwise. *)
Theorem export_keys_only_checks env :
  (export_keys env).1 = env
  ∧ (export_keys env).2
    = if bool_decide (Forall (λ key, is_Some (env !! key))
                        ["GROQ_API_KEY"; "LANGCHAIN_API_KEY"; "LANGCHAIN_PROJECT"])
      then None else Some TypeError.
Proof.
  unfold export_keys. by rewrite export_each_only_checks.
Qed.
